(** * KyivAlertVisualizer: the message-to-alert pipeline of [main.py]

    A shallow embedding of the helper functions, the Telegram handler and
    the map refresh of [main.py], with the properties stated for them.

    Modelling conventions.
    - A Python [str] is a list of Unicode code points.
    - The NER pipeline ([nlp]), the morphological analyser ([morph.parse]),
      the geocoding client ([geolocator.geocode]) and the wall clock
      ([datetime.now]) are external: they are section variables.
    - An instant is an integer count of microseconds since the epoch (the
      resolution of [datetime]); a [timedelta] is a count of microseconds.
    - [locations.csv] is modelled by the data frame that [pd.read_csv]
      yields for it: [None] when the file is missing, otherwise its rows.
      The CSV text itself is not modelled: a row appended by [save_to_csv]
      stands in the frame with the values it was given, which [pd.read_csv]
      does not return for every value (a cell such as NA is read as a
      missing value, and timestamps written in differing formats are left
      as text).  The properties below are about the frame, not about the
      text written for it.
    - Calls that may raise return an [Outcome]; the stateful functions run
      in a state-and-exception monad over the [World].
    - The [print] calls and [os.makedirs] leave no trace in the model. *)

From Stdlib Require Import List ZArith NArith Bool Lia Permutation Sorted.
From Stdlib Require Import Floats.PrimFloat.
Import ListNotations.

Set Implicit Arguments.
Set Warnings "-inexact-float".

(** ** Strings *)

Definition codepoint := N.
Definition str := list codepoint.

(** [str.isspace] for one code point: the code points CPython treats as
    whitespace, which are the separators of [str.split()]. *)
Definition isspace (c : codepoint) : bool :=
  ((9 <=? c) && (c <=? 13) || (28 <=? c) && (c <=? 32)
   || (c =? 133) || (c =? 160) || (c =? 5760)
   || (8192 <=? c) && (c <=? 8202)
   || (c =? 8232) || (c =? 8233) || (c =? 8239) || (c =? 8287)
   || (c =? 12288))%N.

Definition SPACE : codepoint := 32%N.

(** [phrase.split()]: maximal runs of non-whitespace, left to right.
    [cur] holds the run being read, in reverse. *)
Fixpoint split_from (cur : str) (s : str) : list str :=
  match s with
  | [] => match cur with [] => [] | _ => [rev cur] end
  | c :: rest =>
      if isspace c then
        match cur with
        | [] => split_from [] rest
        | _ => rev cur :: split_from [] rest
        end
      else split_from (c :: cur) rest
  end.

Definition split (s : str) : list str := split_from [] s.

(** [sep.join(words)]. *)
Fixpoint join (sep : str) (words : list str) : str :=
  match words with
  | [] => []
  | [w] => w
  | w :: ws => w ++ sep ++ join sep ws
  end.

(** A token: what [split] produces, a non-empty string without whitespace. *)
Definition is_token (w : str) : Prop :=
  w <> [] /\ Forall (fun c => isspace c = false) w.

(** Truth value of a [str]: non-empty. *)
Definition str_truthy (s : str) : bool :=
  match s with [] => false | _ => true end.

(** ** Values of the external libraries *)

(** One parse of [pymorphy3]: the analysed word and its lemma. *)
Record Parse := mkParse { parse_word : str; normal_form : str }.

(** One entity of a [stanza] document: [ent.text] and [ent.type]. *)
Inductive EntType := LOC | PERS | ORG | MISC.

Record Span := mkSpan { ent_text : str; ent_type : EntType }.

Definition is_LOC (t : EntType) : bool :=
  match t with LOC => true | _ => false end.

(** A [geopy] location. *)
Record Location := mkLocation { latitude : float; longitude : float }.

(** An instance of [Exception], carrying its message. *)
Record Exception := mkException { exc_message : str }.

Inductive Outcome (A : Type) : Type :=
| Returns (a : A)
| Raises (e : Exception).

Arguments Returns {A} a.
Arguments Raises {A} e.

(** [try: body except Exception as e: handler(e)]. *)
Definition try_except {A} (body : Outcome A) (handler : Exception -> Outcome A)
  : Outcome A :=
  match body with
  | Returns a => Returns a
  | Raises e => handler e
  end.

(** A latitude or longitude as the handler sees it: [None] or a float. *)
Definition coord := option float.

(** Truth value of such a value: [None] and zero are false. *)
Definition truthy (x : coord) : bool :=
  match x with
  | None => false
  | Some v => negb (PrimFloat.eqb v 0%float)
  end.

(** ** Time *)

Definition instant := Z.
Definition timedelta := Z.

Definition seconds (n : Z) : timedelta := (n * 1000000)%Z.
Definition minutes (n : Z) : timedelta := seconds (n * 60).
Definition hours (n : Z) : timedelta := minutes (n * 60).

(** ** Stored rows, markers and the map *)

Record Row := mkRow {
  message : str;
  place : str;
  lat : coord;
  lon : coord;
  timestamp : instant
}.

Inductive Color := red | yellow | gray.

Record CircleMarker := mkCircleMarker {
  location : coord * coord;
  radius : Z;
  popup : str;
  color : Color;
  fill : bool;
  fill_color : Color;
  fill_opacity : float
}.

Record Map := mkMap {
  map_location : float * float;
  zoom_start : Z;
  children : list CircleMarker
}.

(** The files the program reads and writes, and the number of times the
    clock has been read. *)
Record World := mkWorld {
  csv_file : option (list Row);
  map_file : option Map;
  clock_reads : nat
}.

(** ** The monad of the stateful functions *)

Definition M (A : Type) : Type := World -> Outcome (A * World).

Definition ret {A} (a : A) : M A := fun w => Returns (a, w).

Definition bind {A B} (m : M A) (k : A -> M B) : M B :=
  fun w =>
    match m w with
    | Returns (a, w') => k a w'
    | Raises e => Raises e
    end.

Definition lift {A} (o : Outcome A) : M A :=
  fun w =>
    match o with
    | Returns a => Returns (a, w)
    | Raises e => Raises e
    end.

Declare Scope py_scope.
Delimit Scope py_scope with py.
Notation "x <- m ;; k" := (bind m (fun x => k))
  (at level 61, m at next level, right associativity) : py_scope.
Notation "m ;; k" := (bind m (fun _ => k))
  (at level 61, right associativity) : py_scope.
Open Scope py_scope.

(** [for x in xs: body(x)]. *)
Fixpoint for_each {A} (xs : list A) (body : A -> M unit) : M unit :=
  match xs with
  | [] => ret tt
  | x :: rest => body x ;; for_each rest body
  end.

Definition get_csv : M (option (list Row)) := fun w => Returns (csv_file w, w).

Definition put_csv (rows : list Row) : M unit :=
  fun w => Returns (tt, mkWorld (Some rows) (map_file w) (clock_reads w)).

Definition put_map (m : Map) : M unit :=
  fun w => Returns (tt, mkWorld (csv_file w) (Some m) (clock_reads w)).

Definition get_map : M (option Map) := fun w => Returns (map_file w, w).

(** [folium.Map.add_child], as called by [marker.add_to(m)]. *)
Definition add_to (marker : CircleMarker) (m : Map) : Map :=
  mkMap (map_location m) (zoom_start m) (children m ++ [marker]).

(** An inbound channel event: [event.message.text] (absent for a message
    without text) and [event.message.date]. *)
Record Event := mkEvent { msg_text : option str; msg_date : instant }.

(** The centre and the zoom of every map the program builds. *)
Definition KYIV : float * float := (50.4501%float, 30.5234%float).
Definition ZOOM : Z := 10.

(** ** The program *)

Section Pipeline.

(** [nlp(text).ents] *)
Variable nlp : str -> list Span.
(** [morph.parse(word)] *)
Variable morph_parse : str -> list Parse.
(** [geolocator.geocode(query)]: a location, [None], or an exception. *)
Variable geolocator_geocode : str -> Outcome (option Location).
(** The successive readings of [datetime.now(timezone.utc)]. *)
Variable clock : nat -> instant.

Definition normalize_case (word : str) : str :=
  match morph_parse word with
  | p :: _ => normal_form p
  | [] => word
  end.

Definition normalize_phrase (phrase : str) : str :=
  let words := split phrase in
  let norm_words :=
    fold_left
      (fun norm_words w =>
         match morph_parse w with
         | p :: _ => norm_words ++ [normal_form p]
         | [] => norm_words ++ [w]
         end)
      words [] in
  join [SPACE] norm_words.

Definition extract_locations (text : str) : list str :=
  let ents := nlp text in
  fold_left
    (fun locs ent =>
       if is_LOC (ent_type ent)
       then locs ++ [normalize_phrase (ent_text ent)]
       else locs)
    ents [].

(** The [try] block either returns a pair from inside ([Some]) or falls
    through to the final [return None, None]; the handler of
    [except Exception] only prints. *)
Definition geocode_location (name : str) : Outcome (coord * coord) :=
  let query := name in
  match
    try_except
      (match geolocator_geocode query with
       | Returns (Some loc) =>
           Returns (Some (Some (latitude loc), Some (longitude loc)))
       | Returns None => Returns None
       | Raises e => Raises e
       end)
      (fun _ => Returns None)
  with
  | Returns (Some result) => Returns result
  | Returns None => Returns (None, None)
  | Raises e => Raises e
  end.

(** [datetime.now(timezone.utc)]: the next reading of the clock. *)
Definition datetime_now : M instant :=
  fun w =>
    Returns (clock (clock_reads w),
             mkWorld (csv_file w) (map_file w) (S (clock_reads w))).

(** [df.to_csv(filename, mode="a", header=not file_exists(filename))]:
    a missing file is created with the header and the row, an existing
    one gets the row at its end.  The row is kept with the values passed
    in; how [pd.read_csv] re-infers the text written for them is outside
    the model. *)
Definition save_to_csv (message place : str) (lat lon : coord)
    (timestamp : option instant) : M unit :=
  timestamp <- match timestamp with
               | None => datetime_now
               | Some t => ret t
               end ;;
  let row := mkRow message place lat lon timestamp in
  file <- get_csv ;;
  match file with
  | None => put_csv [row]
  | Some rows => put_csv (rows ++ [row])
  end.

(** The [if]/[elif]/[else] on [age] in the loop of [update_map]. *)
Definition marker_color (age : timedelta) : Color :=
  if (age <=? minutes 15)%Z then red
  else if (age <=? minutes 30)%Z then yellow
  else gray.

Definition update_map : M unit :=
  file <- get_csv ;;
  match file with
  | None => ret tt
  | Some df =>
      now <- datetime_now ;;
      let df := filter (fun row => (now - timestamp row <=? hours 1)%Z) df in
      let m := mkMap KYIV ZOOM [] in
      let m :=
        fold_left
          (fun m row =>
             let age := (now - timestamp row)%Z in
             let color := marker_color age in
             add_to (mkCircleMarker (lat row, lon row) 6 (message row)
                       color true color 0.7%float) m)
          df m in
      put_csv df ;;
      put_map m
  end.

Definition telegram_handler (event : Event) : M unit :=
  match msg_text event with
  | None => ret tt
  | Some text =>
      if negb (str_truthy text) then ret tt
      else
        let locations := extract_locations text in
        for_each locations
          (fun loc =>
             latlon <- lift (geocode_location loc) ;;
             let '(lat, lon) := latlon in
             if truthy lat && truthy lon
             then save_to_csv text loc lat lon None
             else ret tt) ;;
        match locations with
        | [] => ret tt
        | _ => update_map
        end
  end.

(** The module-level set-up: an empty CSV and a default map are created
    when they are missing. *)
Definition startup : M unit :=
  file <- get_csv ;;
  match file with
  | None => put_csv []
  | Some _ => ret tt
  end ;;
  m <- get_map ;;
  match m with
  | None => put_map (mkMap KYIV ZOOM [])
  | Some _ => ret tt
  end.

End Pipeline.

(** ** Notions used in the statements *)

(** The world a computation leaves behind, when it returns. *)
Definition exec {A} (m : M A) (w : World) : option World :=
  match m w with
  | Returns (_, w') => Some w'
  | Raises _ => None
  end.

(** The rows of the CSV file; a missing file has none. *)
Definition rows_of (w : World) : list Row :=
  match csv_file w with
  | Some rows => rows
  | None => []
  end.

(** The marker [update_map] draws for a row, given its colour. *)
Definition circle (row : Row) (c : Color) : CircleMarker :=
  mkCircleMarker (lat row, lon row) 6 (message row) c true c 0.7%float.

Definition within_hour (now : instant) (row : Row) : bool :=
  (now - timestamp row <=? hours 1)%Z.

Definition markers_at (now : instant) (rows : list Row) : list CircleMarker :=
  map (fun row => circle row (marker_color (now - timestamp row)%Z))
      (filter (within_hour now) rows).

(** The markers on the map that [update_map] writes when run in [w]. *)
Definition rendered (clock : nat -> instant) (w : World) : list CircleMarker :=
  match exec (update_map clock) w with
  | Some w' =>
      match map_file w' with
      | Some m => children m
      | None => []
      end
  | None => []
  end.

(** The body of the handler's loop, for one extracted location. *)
Definition accept_location (geocode : str -> Outcome (option Location))
    (clock : nat -> instant) (text loc : str) : M unit :=
  latlon <- lift (geocode_location geocode loc) ;;
  let '(lat, lon) := latlon in
  if truthy lat && truthy lon
  then save_to_csv clock text loc lat lon None
  else ret tt.

Definition handler_loop (geocode : str -> Outcome (option Location))
    (clock : nat -> instant) (text : str) (locs : list str) : M unit :=
  for_each locs (accept_location geocode clock text).

(** The location the guard [if lat and lon] lets through, if any. *)
Definition accepted (geocode : str -> Outcome (option Location)) (loc : str)
  : option Location :=
  match geocode loc with
  | Returns (Some found) =>
      if truthy (Some (latitude found)) && truthy (Some (longitude found))
      then Some found
      else None
  | _ => None
  end.

(** The rows one run of the loop appends, the clock having been read [k]
    times before. *)
Fixpoint new_rows (geocode : str -> Outcome (option Location))
    (clock : nat -> instant) (text : str) (k : nat) (locs : list str)
  : list Row :=
  match locs with
  | [] => []
  | loc :: rest =>
      match accepted geocode loc with
      | Some found =>
          mkRow text loc (Some (latitude found)) (Some (longitude found))
                (clock k)
          :: new_rows geocode clock text (S k) rest
      | None => new_rows geocode clock text k rest
      end
  end.

(** The world after appending [new] rows, one clock reading each. *)
Definition store_rows (w : World) (new : list Row) : World :=
  match new with
  | [] => w
  | _ => mkWorld (Some (rows_of w ++ new)) (map_file w)
                 (clock_reads w + length new)
  end.

(** Whether the guard [if lat and lon] of the handler lets a location
    through: the geocoder found it and neither coordinate is zero. *)
Definition passes_guard (geocode : str -> Outcome (option Location))
    (loc : str) : bool :=
  match accepted geocode loc with
  | Some _ => true
  | None => false
  end.

(** What a marker says about the row it was drawn for at instant [now]. *)
Definition marks (now : instant) (row : Row) (mk : CircleMarker) : Prop :=
  location mk = (lat row, lon row) /\ popup mk = message row /\
  radius mk = 6%Z /\ fill mk = true /\ fill_color mk = color mk /\
  (now - timestamp row <= hours 1)%Z /\
  ((now - timestamp row <= minutes 15)%Z -> color mk = red) /\
  ((minutes 15 < now - timestamp row <= minutes 30)%Z -> color mk = yellow) /\
  ((minutes 30 < now - timestamp row)%Z -> color mk = gray).

(** A clock that never runs backwards. *)
Definition clock_monotone (clock : nat -> instant) : Prop :=
  forall i j, i <= j -> (clock i <= clock j)%Z.

(** The rows stand in the order of their timestamps, and none is stamped
    later than the next reading of the clock. *)
Definition stamps_ordered (clock : nat -> instant) (w : World) : Prop :=
  StronglySorted (fun r1 r2 => (timestamp r1 <= timestamp r2)%Z) (rows_of w) /\
  Forall (fun r => (timestamp r <= clock (clock_reads w))%Z) (rows_of w).

(** ** Stand-ins for the external services, to run the program on *)

Fixpoint str_eqb (s t : str) : bool :=
  match s, t with
  | [], [] => true
  | c :: s', d :: t' => N.eqb c d && str_eqb s' t'
  | _, _ => false
  end.

(** "Оболоні", "оболонь", "районі", "район" *)
Definition Oboloni : str := [1054; 1073; 1086; 1083; 1086; 1085; 1110]%N.
Definition obolon : str := [1086; 1073; 1086; 1083; 1086; 1085; 1100]%N.
Definition raioni : str := [1088; 1072; 1081; 1086; 1085; 1110]%N.
Definition raion : str := [1088; 1072; 1081; 1086; 1085]%N.

(** An analyser that knows two nouns, in two forms each. *)
Definition uk_parse (w : str) : list Parse :=
  if str_eqb w Oboloni || str_eqb w obolon then [mkParse w obolon]
  else if str_eqb w raioni || str_eqb w raion then [mkParse w raion]
  else [].

(** An analyser whose one lemma holds two spaces: "a" gives "b  c". *)
Definition spaced_parse (w : str) : list Parse :=
  if str_eqb w [97%N] then [mkParse w [98; 32; 32; 99]%N] else [].

(** A NER stub that tags "Оболоні" as the one location of any text. *)
Definition one_loc_nlp (text : str) : list Span := [mkSpan Oboloni LOC].

(** A NER stub that finds a person and no location. *)
Definition no_loc_nlp (text : str) : list Span := [mkSpan Oboloni PERS].

(** A NER stub with two locations, a geocoder that resolves every name to
    one point, and a clock that advances one second per reading. *)
Definition two_loc_nlp (text : str) : list Span :=
  [mkSpan Oboloni LOC; mkSpan raioni LOC].

Definition fixed_geocode (name : str) : Outcome (option Location) :=
  Returns (Some (mkLocation 50.5%float 30.5%float)).

(** A geocoder that places everything on the equator. *)
Definition equator_geocode (name : str) : Outcome (option Location) :=
  Returns (Some (mkLocation 0%float 30.5%float)).

(** A geocoder whose every call times out, and one that never finds a
    match. *)
Definition raising_geocode (name : str) : Outcome (option Location) :=
  Raises (mkException [116; 105; 109; 101; 111; 117; 116]%N).

Definition silent_geocode (name : str) : Outcome (option Location) :=
  Returns None.

Definition ticking_clock (n : nat) : instant := seconds (Z.of_nat n).

(** A clock that advances one hour per reading. *)
Definition hourly_clock (n : nat) : instant := hours (Z.of_nat n).

(** * Properties *)

(** ** C5: the geocoder wrapper never raises *)

(** C5. Whatever the geocoding backend does for a name (raise an exception,
    return no match, or return a location), [geocode_location] returns a
    value; when the backend raises or finds nothing that value is the pair
    [(None, None)], the same for both failure modes. *)
Theorem geocode_location_total_on_failure :
  forall (geocode : str -> Outcome (option Location)) (name : str),
    (exists v, geocode_location geocode name = Returns v) /\
    (forall e, geocode name = Raises e ->
               geocode_location geocode name = Returns (None, None)) /\
    (geocode name = Returns None ->
     geocode_location geocode name = Returns (None, None)).
Proof.
  intros geocode name. unfold geocode_location, try_except.
  destruct (geocode name) as [[loc|]|e]; repeat split;
    try (eexists; reflexivity); intros; try discriminate; reflexivity.
Qed.

Lemma geocode_location_total_on_failure_witness :
  geocode_location raising_geocode obolon = Returns (None, None) /\
  geocode_location silent_geocode obolon = Returns (None, None).
Proof.
  split.
  - apply (proj1 (proj2 (geocode_location_total_on_failure
                           raising_geocode obolon))
             (mkException [116; 105; 109; 101; 111; 117; 116]%N)).
    reflexivity.
  - apply (proj2 (proj2 (geocode_location_total_on_failure
                           silent_geocode obolon))).
    reflexivity.
Defined.

(** ** The map refresh, step by step *)

Lemma fold_add_to :
  forall (mk : Row -> CircleMarker) (df : list Row) (m : Map),
    fold_left (fun m row => add_to (mk row) m) df m
    = mkMap (map_location m) (zoom_start m) (children m ++ map mk df).
Proof.
  intros mk df. induction df as [|row df IH]; intros m; simpl.
  - rewrite app_nil_r. destruct m; reflexivity.
  - rewrite IH. simpl. rewrite <- app_assoc. reflexivity.
Qed.

Lemma update_map_present :
  forall clock w rows,
    csv_file w = Some rows ->
    update_map clock w
    = Returns (tt, mkWorld (Some (filter (within_hour (clock (clock_reads w))) rows))
                           (Some (mkMap KYIV ZOOM
                                    (markers_at (clock (clock_reads w)) rows)))
                           (S (clock_reads w))).
Proof.
  intros clock w rows Hcsv.
  unfold update_map, bind, get_csv, datetime_now, put_csv, put_map.
  rewrite Hcsv. cbn [csv_file map_file clock_reads].
  rewrite fold_add_to. reflexivity.
Qed.

Lemma update_map_missing :
  forall clock w, csv_file w = None -> update_map clock w = Returns (tt, w).
Proof.
  intros clock w Hcsv. unfold update_map, bind, get_csv. rewrite Hcsv.
  reflexivity.
Qed.

Lemma rendered_present :
  forall clock rows m k,
    rendered clock (mkWorld (Some rows) m k) = markers_at (clock k) rows.
Proof.
  intros. unfold rendered, exec.
  rewrite (@update_map_present clock (mkWorld (Some rows) m k) rows eq_refl).
  reflexivity.
Qed.

Lemma markers_at_app :
  forall now l1 l2, markers_at now (l1 ++ l2) = markers_at now l1 ++ markers_at now l2.
Proof.
  intros. unfold markers_at. rewrite filter_app, map_app. reflexivity.
Qed.

Lemma markers_at_insert :
  forall now before row after,
    markers_at now (before ++ row :: after)
    = markers_at now before ++ markers_at now [row] ++ markers_at now after.
Proof.
  intros. change (row :: after) with ([row] ++ after).
  rewrite !markers_at_app. reflexivity.
Qed.

Lemma markers_at_fresh :
  forall now row,
    (now - timestamp row <= hours 1)%Z ->
    markers_at now [row] = [circle row (marker_color (now - timestamp row)%Z)].
Proof.
  intros now row H. unfold markers_at, within_hour. simpl.
  destruct (Z.leb_spec (now - timestamp row) (hours 1)); [reflexivity | lia].
Qed.

Lemma markers_at_old :
  forall now row,
    (hours 1 < now - timestamp row)%Z -> markers_at now [row] = [].
Proof.
  intros now row H. unfold markers_at, within_hour. simpl.
  destruct (Z.leb_spec (now - timestamp row) (hours 1)); [lia | reflexivity].
Qed.

(** The three tiers, over whole intervals of ages. *)
Lemma marker_color_tiers :
  forall age : timedelta,
    ((age <= minutes 15)%Z -> marker_color age = red) /\
    ((minutes 15 < age <= minutes 30)%Z -> marker_color age = yellow) /\
    ((minutes 30 < age)%Z -> marker_color age = gray).
Proof.
  intros age. unfold marker_color.
  destruct (Z.leb_spec age (minutes 15)), (Z.leb_spec age (minutes 30));
    repeat split; intros; try reflexivity;
    unfold minutes, seconds in *; lia.
Qed.

(** ** C1: the severity tiers at their boundaries *)

(** C1. [update_map] returns and writes a map holding the markers [shown].
    Let a row of age [a] (now minus its timestamp) stand anywhere in the CSV
    when [update_map] runs.  The map then shows the markers of the rows
    before it, its own marker, and the markers of the rows after it, where
    its own marker is red at exactly 15 minutes, yellow one second later and
    at exactly 30 minutes, gray one second later and at exactly 60 minutes;
    a row older than 60 minutes, by any amount, contributes no marker. *)
Theorem tier_boundaries_exact :
  forall (clock : nat -> instant) (m : option Map) (k : nat)
         (before after : list Row) (msg pl : str) (la lo : coord),
    let now := clock k in
    let aged (a : timedelta) := mkRow msg pl la lo (now - a)%Z in
    let shown (rows : list Row) := rendered clock (mkWorld (Some rows) m k) in
    let at_age (a : timedelta) := shown (before ++ aged a :: after) in
    (forall rows, exists w',
        update_map clock (mkWorld (Some rows) m k) = Returns (tt, w') /\
        map_file w' = Some (mkMap KYIV ZOOM (shown rows))) /\
    at_age (minutes 15)
      = shown before ++ [circle (aged (minutes 15)) red] ++ shown after /\
    at_age (minutes 15 + seconds 1)%Z
      = shown before ++ [circle (aged (minutes 15 + seconds 1)%Z) yellow]
          ++ shown after /\
    at_age (minutes 30)
      = shown before ++ [circle (aged (minutes 30)) yellow] ++ shown after /\
    at_age (minutes 30 + seconds 1)%Z
      = shown before ++ [circle (aged (minutes 30 + seconds 1)%Z) gray]
          ++ shown after /\
    at_age (minutes 60)
      = shown before ++ [circle (aged (minutes 60)) gray] ++ shown after /\
    (forall p : positive,
        at_age (minutes 60 + Z.pos p)%Z = shown before ++ shown after).
Proof.
  intros clock m k before after msg pl la lo now aged shown at_age.
  assert (Hage : forall a, (now - timestamp (aged a) = a)%Z)
    by (intros a; unfold aged; simpl; lia).
  assert (Hfresh : forall a c,
             (a <= hours 1)%Z -> marker_color a = c ->
             at_age a = shown before ++ [circle (aged a) c] ++ shown after).
  { intros a c Ha Hc. unfold at_age, shown. rewrite !rendered_present.
    rewrite markers_at_insert, markers_at_fresh; rewrite Hage; [|exact Ha].
    rewrite Hc. reflexivity. }
  split.
  { intros rows. eexists. split; [apply update_map_present; reflexivity|].
    unfold shown. rewrite rendered_present. reflexivity. }
  repeat split.
  1-5: apply Hfresh; [vm_compute; discriminate | reflexivity].
  intros p. unfold at_age, shown. rewrite !rendered_present.
  rewrite markers_at_insert, markers_at_old; [reflexivity|].
  rewrite Hage. unfold hours, minutes, seconds. lia.
Qed.

(** ** C2: the prune pass *)

(** C2. When [update_map] runs on an existing CSV, it returns, and the rows
    it writes back together with the rows it drops are exactly the rows it
    read: every row written back is at most one hour old, and every row
    dropped is more than one hour old, at the instant the pass read the
    clock. *)
Theorem prune_keeps_exactly_the_last_hour :
  forall (clock : nat -> instant) (w : World) (rows : list Row),
    csv_file w = Some rows ->
    let now := clock (clock_reads w) in
    exists (w' : World) (kept evicted : list Row),
      update_map clock w = Returns (tt, w') /\
      csv_file w' = Some kept /\
      Permutation rows (kept ++ evicted) /\
      Forall (fun row => (now - timestamp row <= hours 1)%Z) kept /\
      Forall (fun row => (now - timestamp row > hours 1)%Z) evicted.
Proof.
  intros clock w rows Hcsv now.
  eexists. exists (filter (within_hour now) rows).
  exists (filter (fun row => negb (within_hour now row)) rows).
  split; [apply update_map_present; exact Hcsv|].
  split; [reflexivity|].
  split; [|split].
  - clear Hcsv. induction rows as [|row rows IH]; simpl; [constructor|].
    destruct (within_hour now row); simpl.
    + constructor. exact IH.
    + apply Permutation_cons_app. exact IH.
  - apply Forall_forall. intros row Hin. apply filter_In in Hin.
    destruct Hin as [_ Hin]. unfold within_hour in Hin. lia.
  - apply Forall_forall. intros row Hin. apply filter_In in Hin.
    destruct Hin as [_ Hin]. unfold within_hour in Hin.
    apply negb_true_iff in Hin. lia.
Qed.

Lemma prune_keeps_exactly_the_last_hour_witness :
  let old := mkRow [49%N] [50%N] (Some 1%float) (Some 2%float) 0%Z in
  let new := mkRow [51%N] [52%N] (Some 3%float) (Some 4%float) (hours 2) in
  let w := mkWorld (Some [old; new]) None 0 in
  let now := hours 2 in
  exists (w' : World) (kept evicted : list Row),
    update_map (fun _ => hours 2) w = Returns (tt, w') /\
    csv_file w' = Some kept /\
    Permutation [old; new] (kept ++ evicted) /\
    Forall (fun row => (now - timestamp row <= hours 1)%Z) kept /\
    Forall (fun row => (now - timestamp row > hours 1)%Z) evicted.
Proof.
  intros old new w now.
  apply (@prune_keeps_exactly_the_last_hour (fun _ => hours 2) w [old; new]).
  reflexivity.
Defined.

(** ** C9: rendering an empty store *)

(** C9. With a CSV that holds no row, [update_map] returns, leaves the CSV
    empty and writes a map without markers, centred at (50.4501, 30.5234)
    with zoom 10, whatever the clock reads.  This is the state the
    module-level set-up leaves when no file existed. *)
Theorem render_empty_store :
  forall (clock : nat -> instant) (m : option Map) (k : nat),
    update_map clock (mkWorld (Some []) m k)
    = Returns (tt, mkWorld (Some [])
                     (Some (mkMap (50.4501%float, 30.5234%float) 10 []))
                     (S k)) /\
    bind startup (fun _ => update_map clock) (mkWorld None None k)
    = Returns (tt, mkWorld (Some [])
                     (Some (mkMap (50.4501%float, 30.5234%float) 10 []))
                     (S k)).
Proof.
  intros clock m k. split.
  - rewrite (@update_map_present clock (mkWorld (Some []) m k) [] eq_refl).
    reflexivity.
  - reflexivity.
Qed.

(** ** C3: normalisation is idempotent *)

Lemma normalize_loop :
  forall (morph_parse : str -> list Parse) (words acc : list str),
    fold_left
      (fun norm_words w =>
         match morph_parse w with
         | p :: _ => norm_words ++ [normal_form p]
         | [] => norm_words ++ [w]
         end)
      words acc
    = acc ++ map (normalize_case morph_parse) words.
Proof.
  intros morph_parse words.
  induction words as [|w words IH]; intros acc; simpl.
  - rewrite app_nil_r. reflexivity.
  - rewrite IH. unfold normalize_case at 2.
    destruct (morph_parse w); rewrite <- app_assoc; reflexivity.
Qed.

Lemma normalize_phrase_map :
  forall (morph_parse : str -> list Parse) (phrase : str),
    normalize_phrase morph_parse phrase
    = join [SPACE] (map (normalize_case morph_parse) (split phrase)).
Proof.
  intros. unfold normalize_phrase. rewrite normalize_loop. reflexivity.
Qed.

Lemma rev_not_nil : forall (A : Type) (l : list A), l <> [] -> rev l <> [].
Proof.
  intros A l Hl Hrev. apply Hl.
  rewrite <- (rev_involutive l), Hrev. reflexivity.
Qed.

Lemma split_from_tokens :
  forall (s cur : str),
    Forall (fun c => isspace c = false) cur ->
    Forall is_token (split_from cur s).
Proof.
  assert (Htok : forall c cur,
             Forall (fun c => isspace c = false) (c :: cur) ->
             is_token (rev (c :: cur))).
  { intros c cur Hcur. split.
    - apply rev_not_nil. discriminate.
    - apply Forall_rev. exact Hcur. }
  induction s as [|c s IH]; intros cur Hcur; simpl.
  - destruct cur as [|d cur]; constructor; [apply Htok; exact Hcur | constructor].
  - destruct (isspace c) eqn:Hc.
    + destruct cur as [|d cur].
      * apply IH. constructor.
      * constructor; [apply Htok; exact Hcur | apply IH; constructor].
    + apply IH. constructor; assumption.
Qed.

Lemma split_tokens : forall s : str, Forall is_token (split s).
Proof. intros s. apply split_from_tokens. constructor. Qed.

Lemma split_from_run :
  forall (w cur rest : str),
    Forall (fun c => isspace c = false) w ->
    split_from cur (w ++ rest) = split_from (rev w ++ cur) rest.
Proof.
  induction w as [|c w IH]; intros cur rest Hw; simpl; [reflexivity|].
  inversion Hw as [|c' w' Hc Hw']; subst.
  rewrite Hc, IH by exact Hw'. rewrite <- app_assoc. reflexivity.
Qed.

(** Splitting a string of tokens joined by single spaces gives the tokens. *)
Lemma split_join :
  forall words : list str,
    Forall is_token words -> split (join [SPACE] words) = words.
Proof.
  unfold split.
  induction words as [|w words IH]; intros Hwords; [reflexivity|].
  inversion Hwords as [|w' words' [Hne Hw] Hrest]; subst.
  assert (Hrev : rev w <> []) by (apply rev_not_nil; exact Hne).
  destruct words as [|w2 words].
  - simpl. rewrite <- (app_nil_r w) at 1.
    rewrite split_from_run by exact Hw. rewrite app_nil_r. simpl.
    destruct (rev w) eqn:E; [contradiction|].
    rewrite <- E, rev_involutive. reflexivity.
  - change (join [SPACE] (w :: w2 :: words))
      with (w ++ SPACE :: join [SPACE] (w2 :: words)).
    rewrite split_from_run by exact Hw. rewrite app_nil_r.
    cbn [split_from]. change (isspace SPACE) with true. cbv iota.
    destruct (rev w) eqn:E; [contradiction|].
    rewrite <- E, rev_involutive, IH by exact Hrest. reflexivity.
Qed.

(** C3. Normalising a phrase twice gives the same string as normalising it
    once, provided the analyser maps tokens to tokens (the lemma of a
    non-empty, whitespace-free word is again such a word) and a token that
    is already a lemma is normalised to itself. *)
Theorem normalize_phrase_idempotent :
  forall (morph_parse : str -> list Parse),
    (forall w, is_token w -> is_token (normalize_case morph_parse w)) ->
    (forall w, is_token w ->
               normalize_case morph_parse (normalize_case morph_parse w)
               = normalize_case morph_parse w) ->
    forall phrase : str,
      normalize_phrase morph_parse (normalize_phrase morph_parse phrase)
      = normalize_phrase morph_parse phrase.
Proof.
  intros morph_parse Hclosed Hlemma phrase.
  rewrite !normalize_phrase_map.
  assert (Htok := split_tokens phrase).
  rewrite split_join.
  - f_equal. rewrite map_map. apply map_ext_in. intros w Hin.
    apply Hlemma. rewrite Forall_forall in Htok. apply Htok. exact Hin.
  - apply Forall_forall. intros l Hin. apply in_map_iff in Hin.
    destruct Hin as [w [Hl Hin]]. subst l. apply Hclosed.
    rewrite Forall_forall in Htok. apply Htok. exact Hin.
Qed.

Lemma uk_parse_closed :
  forall w, is_token w -> is_token (normalize_case uk_parse w).
Proof.
  intros w Hw. unfold normalize_case, uk_parse.
  destruct (str_eqb w Oboloni || str_eqb w obolon);
    [split; [discriminate | repeat constructor]|].
  destruct (str_eqb w raioni || str_eqb w raion);
    [split; [discriminate | repeat constructor]|].
  exact Hw.
Qed.

Lemma uk_parse_lemma_fixed :
  forall w, normalize_case uk_parse (normalize_case uk_parse w)
            = normalize_case uk_parse w.
Proof.
  intros w. unfold normalize_case, uk_parse.
  destruct (str_eqb w Oboloni || str_eqb w obolon) eqn:E1; [reflexivity|].
  destruct (str_eqb w raioni || str_eqb w raion) eqn:E2; [reflexivity|].
  rewrite E1, E2. reflexivity.
Qed.

Lemma normalize_phrase_idempotent_witness :
  let phrase := raioni ++ [32; 9]%N ++ Oboloni in
  normalize_phrase uk_parse phrase = raion ++ [32%N] ++ obolon /\
  normalize_phrase uk_parse (normalize_phrase uk_parse phrase)
  = normalize_phrase uk_parse phrase.
Proof.
  intros phrase. split; [reflexivity|].
  apply (@normalize_phrase_idempotent uk_parse uk_parse_closed
           (fun w _ => uk_parse_lemma_fixed w) phrase).
Defined.

(** The first premise of the idempotence theorem cannot be dropped: an
    analyser may fix every lemma and still return one with inner
    whitespace, which the second pass splits and rejoins differently. *)
Remark normalize_phrase_needs_token_lemmas :
  (forall w, normalize_case spaced_parse (normalize_case spaced_parse w)
             = normalize_case spaced_parse w) /\
  normalize_phrase spaced_parse (normalize_phrase spaced_parse [97%N])
  <> normalize_phrase spaced_parse [97%N].
Proof.
  split.
  - intros w. unfold normalize_case, spaced_parse.
    destruct (str_eqb w [97%N]) eqn:E; [reflexivity|].
    rewrite E. reflexivity.
  - vm_compute. discriminate.
Qed.

(** ** C7: what the extractor returns *)

(** The claim that the extractor returns the surface text fails: for a text
    whose one location span reads "Оболоні" the extractor returns its
    lemma "оболонь". *)
Lemma extract_locations_not_surface_text :
  extract_locations one_loc_nlp uk_parse Oboloni = [obolon] /\
  extract_locations one_loc_nlp uk_parse Oboloni
  <> map ent_text
       (filter (fun ent => is_LOC (ent_type ent)) (one_loc_nlp Oboloni)).
Proof.
  split; [reflexivity|]. vm_compute. discriminate.
Qed.

Lemma extract_loop :
  forall (morph_parse : str -> list Parse) (ents : list Span) (acc : list str),
    fold_left
      (fun locs ent =>
         if is_LOC (ent_type ent)
         then locs ++ [normalize_phrase morph_parse (ent_text ent)]
         else locs)
      ents acc
    = acc ++ map (fun ent => normalize_phrase morph_parse (ent_text ent))
                 (filter (fun ent => is_LOC (ent_type ent)) ents).
Proof.
  intros morph_parse ents.
  induction ents as [|ent ents IH]; intros acc; simpl.
  - rewrite app_nil_r. reflexivity.
  - rewrite IH. destruct (is_LOC (ent_type ent)); simpl;
      [rewrite <- app_assoc|]; reflexivity.
Qed.

(** C7 (amended). The extractor returns one element per span tagged [LOC],
    in the order in which the NER model lists the spans, each element being
    the normalised form of the span's text; nothing is merged, so the
    result is as long as the list of [LOC] spans and a place tagged twice
    appears twice. *)
Theorem extract_locations_normalized_in_order :
  forall (nlp : str -> list Span) (morph_parse : str -> list Parse)
         (text : str),
    let loc_spans := filter (fun ent => is_LOC (ent_type ent)) (nlp text) in
    extract_locations nlp morph_parse text
    = map (fun ent => normalize_phrase morph_parse (ent_text ent)) loc_spans /\
    length (extract_locations nlp morph_parse text) = length loc_spans.
Proof.
  intros nlp morph_parse text loc_spans.
  assert (H : extract_locations nlp morph_parse text
              = map (fun ent => normalize_phrase morph_parse (ent_text ent))
                    loc_spans)
    by (unfold extract_locations; rewrite extract_loop; reflexivity).
  split; [exact H|]. rewrite H. apply length_map.
Qed.

(** ** The handler, step by step *)

Section HandlerFacts.

Set Default Proof Using "Type".

Variable nlp : str -> list Span.
Variable morph_parse : str -> list Parse.
Variable geocode : str -> Outcome (option Location).
Variable clock : nat -> instant.

Lemma telegram_handler_unfold :
  forall text date,
    telegram_handler nlp morph_parse geocode clock (mkEvent (Some text) date)
    = if negb (str_truthy text) then ret tt
      else
        let locations := extract_locations nlp morph_parse text in
        handler_loop geocode clock text locations ;;
        match locations with
        | [] => ret tt
        | _ => update_map clock
        end.
Proof. reflexivity. Qed.

Lemma save_to_csv_now :
  forall msg pl la lo w,
    save_to_csv clock msg pl la lo None w
    = Returns (tt, mkWorld (Some (rows_of w
                                  ++ [mkRow msg pl la lo (clock (clock_reads w))]))
                           (map_file w) (S (clock_reads w))).
Proof.
  intros. unfold save_to_csv, bind, datetime_now, get_csv, put_csv, rows_of.
  cbn [csv_file map_file clock_reads]. destruct (csv_file w); reflexivity.
Qed.

Lemma accept_location_run :
  forall text loc w,
    accept_location geocode clock text loc w
    = Returns (tt, store_rows w (new_rows geocode clock text (clock_reads w) [loc])).
Proof.
  intros. unfold accept_location, bind, lift, geocode_location, try_except.
  cbn [new_rows]. unfold accepted.
  destruct (geocode loc) as [[found|]|e]; try reflexivity.
  destruct (truthy (Some (latitude found)) && truthy (Some (longitude found)));
    [|reflexivity].
  rewrite save_to_csv_now. unfold store_rows. cbn [length].
  rewrite Nat.add_1_r. reflexivity.
Qed.

Lemma store_rows_twice :
  forall w first second,
    store_rows (store_rows w first) second = store_rows w (first ++ second).
Proof.
  intros w first second. destruct first as [|r first]; [reflexivity|].
  destruct second as [|s second].
  - rewrite app_nil_r. reflexivity.
  - unfold store_rows. cbn [rows_of csv_file map_file clock_reads app].
    rewrite <- app_assoc. cbn [app]. f_equal.
    change (r :: first ++ s :: second) with ((r :: first) ++ s :: second).
    rewrite length_app. cbn [length]. lia.
Qed.

Lemma clock_reads_store_rows :
  forall w new, clock_reads (store_rows w new) = clock_reads w + length new.
Proof.
  intros w [|r new]; simpl; lia.
Qed.

Lemma rows_of_store_rows :
  forall w new, rows_of (store_rows w new) = rows_of w ++ new.
Proof.
  intros w [|r new]; simpl; [rewrite app_nil_r|]; reflexivity.
Qed.

Lemma new_rows_app :
  forall text first second k,
    new_rows geocode clock text k (first ++ second)
    = new_rows geocode clock text k first
      ++ new_rows geocode clock text
           (k + length (new_rows geocode clock text k first)) second.
Proof.
  intros text first second.
  induction first as [|loc first IH]; intros k; simpl.
  - rewrite Nat.add_0_r. reflexivity.
  - destruct (accepted geocode loc); simpl; rewrite IH;
      [rewrite Nat.add_succ_r|]; reflexivity.
Qed.

Lemma handler_loop_run :
  forall text locs w,
    handler_loop geocode clock text locs w
    = Returns (tt, store_rows w (new_rows geocode clock text (clock_reads w) locs)).
Proof.
  intros text. unfold handler_loop.
  induction locs as [|loc locs IH]; intros w; [reflexivity|].
  cbn [for_each]. unfold bind at 1. rewrite accept_location_run, IH.
  rewrite store_rows_twice, clock_reads_store_rows.
  change (loc :: locs) with ([loc] ++ locs). rewrite (new_rows_app _ [loc]).
  reflexivity.
Qed.

Lemma accepted_found :
  forall loc found,
    accepted geocode loc = Some found ->
    geocode loc = Returns (Some found) /\
    truthy (Some (latitude found)) = true /\
    truthy (Some (longitude found)) = true.
Proof.
  intros loc found. unfold accepted.
  destruct (geocode loc) as [[l|]|e]; try discriminate.
  destruct (truthy (Some (latitude l)) && truthy (Some (longitude l))) eqn:E;
    [|discriminate].
  intros H; inversion H; subst. apply andb_true_iff in E.
  destruct E as [Hlat Hlon]. repeat split; assumption.
Qed.

(** Where a row appended by the loop comes from. *)
Lemma new_rows_origin :
  forall text locs k r,
    In r (new_rows geocode clock text k locs) ->
    exists loc found,
      In loc locs /\ geocode loc = Returns (Some found) /\
      message r = text /\ place r = loc /\
      lat r = Some (latitude found) /\ lon r = Some (longitude found) /\
      truthy (lat r) = true /\ truthy (lon r) = true.
Proof.
  intros text locs.
  induction locs as [|loc locs IH]; intros k r Hin; simpl in Hin; [contradiction|].
  destruct (accepted geocode loc) as [found|] eqn:Hacc.
  - destruct Hin as [Hr|Hin].
    + apply accepted_found in Hacc. destruct Hacc as [Hgeo [Hlat Hlon]].
      exists loc, found. subst r. simpl. auto 10.
    + destruct (IH _ _ Hin) as [l [f [Hl Hrest]]].
      exists l, f. split; [right; exact Hl | exact Hrest].
  - destruct (IH _ _ Hin) as [l [f [Hl Hrest]]].
    exists l, f. split; [right; exact Hl | exact Hrest].
Qed.

Lemma new_rows_timestamps :
  forall text locs k,
    map timestamp (new_rows geocode clock text k locs)
    = map clock (seq k (length (new_rows geocode clock text k locs))).
Proof.
  intros text locs.
  induction locs as [|loc locs IH]; intros k; simpl; [reflexivity|].
  destruct (accepted geocode loc); simpl; rewrite IH; reflexivity.
Qed.

Lemma new_rows_message :
  forall text locs k,
    Forall (fun r => message r = text) (new_rows geocode clock text k locs).
Proof.
  intros. apply Forall_forall. intros r Hin.
  apply new_rows_origin in Hin. destruct Hin as [l [f [_ [_ [Hm _]]]]].
  exact Hm.
Qed.

Lemma update_map_rows :
  forall w,
    exists w',
      update_map clock w = Returns (tt, w') /\
      rows_of w' = filter (within_hour (clock (clock_reads w))) (rows_of w).
Proof.
  intros w. destruct (csv_file w) as [rows|] eqn:Hcsv.
  - eexists. split; [apply update_map_present; exact Hcsv|].
    unfold rows_of. rewrite Hcsv. reflexivity.
  - exists w. split; [apply update_map_missing; exact Hcsv|].
    unfold rows_of. rewrite Hcsv. reflexivity.
Qed.

Lemma filter_all :
  forall (A : Type) (l : list A), filter (fun _ => true) l = l.
Proof.
  induction l as [|x l IH]; simpl; [|rewrite IH]; reflexivity.
Qed.

Lemma str_truthy_nonempty : forall s : str, s <> [] -> str_truthy s = true.
Proof. intros [|c s] H; [contradiction | reflexivity]. Qed.

(** A run of the handler on a message with text: the loop appends its new
    rows, and the final rows are a selection of the rows the loop left. *)
Lemma telegram_handler_text :
  forall text date w,
    text <> [] ->
    let w1 := store_rows w (new_rows geocode clock text (clock_reads w)
                              (extract_locations nlp morph_parse text)) in
    exists w2 keep,
      telegram_handler nlp morph_parse geocode clock
        (mkEvent (Some text) date) w = Returns (tt, w2) /\
      rows_of w2 = filter keep (rows_of w1).
Proof.
  intros text date w Htext w1.
  rewrite telegram_handler_unfold, (str_truthy_nonempty Htext).
  cbn [negb]. cbv zeta. unfold bind at 1. rewrite handler_loop_run.
  fold w1. destruct (extract_locations nlp morph_parse text) as [|loc locs].
  - exists w1, (fun _ => true). rewrite filter_all. split; reflexivity.
  - destruct (update_map_rows w1) as [w2 [Hrun Hrows]].
    exists w2, (within_hour (clock (clock_reads w1))). split; assumption.
Qed.

End HandlerFacts.

(** ** C4: only resolved locations are stored *)

(** C4. A run of the handler returns, and every row in the CSV afterwards
    either was there before or was saved for a location of the message for
    which the geocoder returned a location: such a row holds that
    location's latitude and longitude, both of them. *)
Theorem only_resolved_locations_are_stored :
  forall (nlp : str -> list Span) (morph_parse : str -> list Parse)
         (geocode : str -> Outcome (option Location)) (clock : nat -> instant)
         (event : Event) (w : World),
    exists w',
      telegram_handler nlp morph_parse geocode clock event w = Returns (tt, w') /\
      forall r,
        In r (rows_of w') ->
        In r (rows_of w) \/
        exists text loc found,
          msg_text event = Some text /\
          In loc (extract_locations nlp morph_parse text) /\
          geocode loc = Returns (Some found) /\
          message r = text /\ place r = loc /\
          lat r = Some (latitude found) /\ lon r = Some (longitude found).
Proof.
  intros nlp morph_parse geocode clock [[text|] date] w.
  2: { exists w. split; [reflexivity | intros r Hr; left; exact Hr]. }
  destruct text as [|c text].
  { exists w. split; [reflexivity | intros r Hr; left; exact Hr]. }
  destruct (@telegram_handler_text nlp morph_parse geocode clock (c :: text)
              date w ltac:(discriminate)) as [w2 [keep [Hrun Hrows]]].
  exists w2. split; [exact Hrun|]. intros r Hr.
  rewrite Hrows in Hr. apply filter_In in Hr. destruct Hr as [Hr _].
  rewrite rows_of_store_rows in Hr. apply in_app_or in Hr.
  destruct Hr as [Hold|Hnew]; [left; exact Hold | right].
  apply new_rows_origin in Hnew.
  destruct Hnew as [loc [found [Hloc [Hgeo [Hm [Hp [Hla [Hlo _]]]]]]]].
  exists (c :: text), loc, found. auto 10.
Qed.

(** ** C10: a zero coordinate counts as unresolved *)

(** C10. Let the geocoder return, for one of the locations of a message, a
    location whose latitude or longitude equals 0.0.  Then
    [geocode_location] does return that pair, the loop body stores nothing
    for it, and the handler acts as if the loop had run over the other
    locations only. *)
Theorem zero_coordinate_is_dropped :
  forall (nlp : str -> list Span) (morph_parse : str -> list Parse)
         (geocode : str -> Outcome (option Location)) (clock : nat -> instant)
         (text : str) (date : instant) (loc : str) (found : Location)
         (before after : list str) (w : World),
    text <> [] ->
    extract_locations nlp morph_parse text = before ++ loc :: after ->
    geocode loc = Returns (Some found) ->
    PrimFloat.eqb (latitude found) 0%float = true \/
    PrimFloat.eqb (longitude found) 0%float = true ->
    geocode_location geocode loc
    = Returns (Some (latitude found), Some (longitude found)) /\
    accept_location geocode clock text loc w = Returns (tt, w) /\
    telegram_handler nlp morph_parse geocode clock (mkEvent (Some text) date) w
    = bind (handler_loop geocode clock text (before ++ after))
           (fun _ => update_map clock) w.
Proof.
  intros nlp morph_parse geocode clock text date loc found before after w
         Htext Hlocs Hgeo Hzero.
  assert (Hacc : accepted geocode loc = None).
  { unfold accepted, truthy. rewrite Hgeo.
    destruct Hzero as [H|H]; rewrite H; [|rewrite andb_false_r]; reflexivity. }
  assert (Hskip : forall k rest,
             new_rows geocode clock text k (loc :: rest)
             = new_rows geocode clock text k rest)
    by (intros; simpl; rewrite Hacc; reflexivity).
  split; [|split].
  - unfold geocode_location, try_except. rewrite Hgeo. reflexivity.
  - rewrite accept_location_run, Hskip. reflexivity.
  - rewrite telegram_handler_unfold, (str_truthy_nonempty Htext), Hlocs.
    cbn [negb]. cbv zeta. unfold bind. rewrite !handler_loop_run.
    rewrite !new_rows_app, Hskip.
    destruct before; reflexivity.
Qed.

Lemma zero_coordinate_is_dropped_witness :
  let w := mkWorld (Some []) None 0 in
  geocode_location equator_geocode obolon
  = Returns (Some 0%float, Some 30.5%float) /\
  accept_location equator_geocode (fun _ => 0%Z) Oboloni obolon w
  = Returns (tt, w) /\
  telegram_handler one_loc_nlp uk_parse equator_geocode (fun _ => 0%Z)
    (mkEvent (Some Oboloni) 0%Z) w
  = bind (handler_loop equator_geocode (fun _ => 0%Z) Oboloni ([] ++ []))
         (fun _ => update_map (fun _ => 0%Z)) w.
Proof.
  intros w.
  apply (@zero_coordinate_is_dropped one_loc_nlp uk_parse equator_geocode
           (fun _ => 0%Z) Oboloni 0%Z obolon (mkLocation 0%float 30.5%float)
           [] [] w).
  - discriminate.
  - reflexivity.
  - reflexivity.
  - left. reflexivity.
Defined.

(** ** C6: the timestamp of an accepted record *)

(** The claim that the records of one message share the message's own
    timestamp fails: a message dated at instant 0 with two locations, handled
    when the clock is at its fifth second, leaves two rows stamped with the
    fifth and the sixth second. *)
Lemma records_of_one_message_differ_in_time :
  let event := mkEvent (Some Oboloni) 0%Z in
  let r1 := mkRow Oboloni obolon (Some 50.5%float) (Some 30.5%float) (seconds 5) in
  let r2 := mkRow Oboloni raion (Some 50.5%float) (Some 30.5%float) (seconds 6) in
  telegram_handler two_loc_nlp uk_parse fixed_geocode ticking_clock event
    (mkWorld (Some []) None 5)
  = Returns (tt, mkWorld (Some [r1; r2])
                   (Some (mkMap KYIV ZOOM [circle r1 red; circle r2 red])) 8) /\
  message r1 = message r2 /\
  timestamp r1 <> timestamp r2 /\
  timestamp r1 <> msg_date event /\
  timestamp r2 <> msg_date event.
Proof.
  intros event r1 r2. split; [reflexivity|].
  split; [reflexivity|].
  repeat split; vm_compute; discriminate.
Qed.

(** C6 (amended). Each record accepted from a message carries the reading
    of the clock taken when that record is saved: the records the loop
    appends hold the message text and, in order, the successive readings of
    the clock from the loop's start, whatever the date of the message.  The
    rows the handler leaves in the end are a selection of the rows the loop
    left: a row is dropped or kept as it is. *)
Theorem accepted_records_carry_save_time :
  forall (nlp : str -> list Span) (morph_parse : str -> list Parse)
         (geocode : str -> Outcome (option Location)) (clock : nat -> instant)
         (text : str) (date : instant) (w : World),
    text <> [] ->
    exists (w1 w2 : World) (new : list Row) (keep : Row -> bool),
      handler_loop geocode clock text (extract_locations nlp morph_parse text) w
      = Returns (tt, w1) /\
      rows_of w1 = rows_of w ++ new /\
      Forall (fun r => message r = text) new /\
      map timestamp new = map clock (seq (clock_reads w) (length new)) /\
      telegram_handler nlp morph_parse geocode clock (mkEvent (Some text) date) w
      = Returns (tt, w2) /\
      rows_of w2 = filter keep (rows_of w1).
Proof.
  intros nlp morph_parse geocode clock text date w Htext.
  destruct (@telegram_handler_text nlp morph_parse geocode clock text date w
              Htext) as [w2 [keep [Hrun Hrows]]].
  eexists. exists w2. eexists. exists keep.
  split; [apply handler_loop_run|].
  split; [apply rows_of_store_rows|].
  split; [apply new_rows_message|].
  split; [apply new_rows_timestamps|].
  split; assumption.
Qed.

Lemma accepted_records_carry_save_time_witness :
  exists (w1 w2 : World) (new : list Row) (keep : Row -> bool),
    handler_loop fixed_geocode ticking_clock Oboloni
      (extract_locations two_loc_nlp uk_parse Oboloni) (mkWorld (Some []) None 5)
    = Returns (tt, w1) /\
    rows_of w1 = rows_of (mkWorld (Some []) None 5) ++ new /\
    Forall (fun r => message r = Oboloni) new /\
    map timestamp new
    = map ticking_clock
        (seq (clock_reads (mkWorld (Some []) None 5)) (length new)) /\
    telegram_handler two_loc_nlp uk_parse fixed_geocode ticking_clock
      (mkEvent (Some Oboloni) 0%Z) (mkWorld (Some []) None 5)
    = Returns (tt, w2) /\
    rows_of w2 = filter keep (rows_of w1).
Proof.
  apply (@accepted_records_carry_save_time two_loc_nlp uk_parse fixed_geocode
           ticking_clock Oboloni 0%Z (mkWorld (Some []) None 5)).
  discriminate.
Defined.

(** * Further properties of the code *)

(** ** The geocoder wrapper *)

(** X1. [geocode_location] always returns a pair that is either
    [(None, None)], when the backend found no location, or the latitude and
    the longitude of the location the backend returned: never one
    coordinate without the other. *)
Theorem geocode_location_all_or_nothing :
  forall (geocode : str -> Outcome (option Location)) (name : str),
    exists lat lon,
      geocode_location geocode name = Returns (lat, lon) /\
      ((lat = None /\ lon = None /\
        forall found, geocode name <> Returns (Some found)) \/
       (exists found,
           geocode name = Returns (Some found) /\
           lat = Some (latitude found) /\ lon = Some (longitude found))).
Proof.
  intros geocode name. unfold geocode_location, try_except.
  destruct (geocode name) as [[found|]|e]; do 2 eexists;
    (split; [reflexivity|]).
  - right. exists found. auto.
  - left. repeat split. intros found. discriminate.
  - left. repeat split. intros found. discriminate.
Qed.

(** ** The extractor and the normaliser *)

Lemma extract_locations_filter :
  forall (nlp : str -> list Span) (morph_parse : str -> list Parse) text,
    extract_locations nlp morph_parse text
    = map (fun ent => normalize_phrase morph_parse (ent_text ent))
          (filter (fun ent => is_LOC (ent_type ent)) (nlp text)).
Proof. intros. unfold extract_locations. rewrite extract_loop. reflexivity. Qed.

Lemma filter_nil_iff :
  forall (A : Type) (p : A -> bool) (l : list A),
    filter p l = [] <-> Forall (fun x => p x = false) l.
Proof.
  intros A p l. induction l as [|x l IH]; simpl.
  - split; [constructor | reflexivity].
  - destruct (p x) eqn:E; split; intros H.
    + discriminate.
    + inversion H; subst. congruence.
    + constructor; [exact E | apply IH; exact H].
    + inversion H; subst. apply IH. assumption.
Qed.

(** X2. The extractor returns the empty list exactly when the NER model
    tags no span of the text as [LOC]: spans of the other types never
    yield a place name. *)
Theorem extract_locations_empty_iff_no_LOC :
  forall (nlp : str -> list Span) (morph_parse : str -> list Parse)
         (text : str),
    extract_locations nlp morph_parse text = [] <->
    Forall (fun ent => is_LOC (ent_type ent) = false) (nlp text).
Proof.
  intros nlp morph_parse text. rewrite extract_locations_filter.
  rewrite <- filter_nil_iff. split; intros H.
  - apply map_eq_nil in H. exact H.
  - rewrite H. reflexivity.
Qed.

Lemma split_blank :
  forall s : str, Forall (fun c => isspace c = true) s -> split s = [].
Proof.
  unfold split. induction s as [|c s IH]; intros H; [reflexivity|].
  inversion H as [|c' s' Hc Hs]; subst. simpl. rewrite Hc. apply IH. exact Hs.
Qed.

(** X3. A phrase made of whitespace only, the empty phrase included, is
    normalised to the empty string, whatever the analyser. *)
Theorem normalize_phrase_blank :
  forall (morph_parse : str -> list Parse) (phrase : str),
    Forall (fun c => isspace c = true) phrase ->
    normalize_phrase morph_parse phrase = [].
Proof.
  intros morph_parse phrase H.
  rewrite normalize_phrase_map, split_blank by exact H. reflexivity.
Qed.

Lemma normalize_phrase_blank_witness :
  normalize_phrase uk_parse [32; 9; 10; 160]%N = [].
Proof.
  apply (@normalize_phrase_blank uk_parse [32; 9; 10; 160]%N).
  repeat constructor.
Defined.

(** X4. When the analyser maps tokens to tokens, the normalised phrase
    split again gives the normalised words of the phrase, one for one and
    in order: runs of whitespace, and whitespace at either end, collapse,
    and no word is lost or merged. *)
Theorem normalize_phrase_keeps_the_words :
  forall (morph_parse : str -> list Parse),
    (forall w, is_token w -> is_token (normalize_case morph_parse w)) ->
    forall phrase : str,
      split (normalize_phrase morph_parse phrase)
      = map (normalize_case morph_parse) (split phrase).
Proof.
  intros morph_parse Hclosed phrase.
  rewrite normalize_phrase_map. apply split_join.
  apply Forall_forall. intros l Hin. apply in_map_iff in Hin.
  destruct Hin as [w [Hl Hin]]. subst l. apply Hclosed.
  assert (Htok := split_tokens phrase).
  rewrite Forall_forall in Htok. apply Htok. exact Hin.
Qed.

Lemma normalize_phrase_keeps_the_words_witness :
  let phrase := [32%N] ++ raioni ++ [32; 9]%N ++ Oboloni ++ [10%N] in
  split (normalize_phrase uk_parse phrase)
  = map (normalize_case uk_parse) (split phrase).
Proof.
  intros phrase.
  apply (@normalize_phrase_keeps_the_words uk_parse uk_parse_closed phrase).
Defined.

(** X5. On a single word (a non-empty string without whitespace)
    [normalize_phrase] and [normalize_case] agree: the lemma of the first
    parse, or the word itself when the analyser has no parse. *)
Theorem normalize_phrase_on_a_word :
  forall (morph_parse : str -> list Parse) (w : str),
    is_token w ->
    normalize_phrase morph_parse w = normalize_case morph_parse w.
Proof.
  intros morph_parse w Hw. rewrite normalize_phrase_map.
  assert (Hsplit : split w = [w]).
  { apply (split_join (words := [w])). constructor; [exact Hw | constructor]. }
  rewrite Hsplit. reflexivity.
Qed.

Lemma normalize_phrase_on_a_word_witness :
  normalize_phrase uk_parse Oboloni = normalize_case uk_parse Oboloni.
Proof.
  apply (@normalize_phrase_on_a_word uk_parse Oboloni).
  split; [discriminate | repeat constructor].
Defined.

(** ** The map refresh *)

Lemma filter_filter_weaker :
  forall (A : Type) (p q : A -> bool) (l : list A),
    (forall x, q x = true -> p x = true) ->
    filter q (filter p l) = filter q l.
Proof.
  intros A p q l Hqp. induction l as [|x l IH]; simpl; [reflexivity|].
  destruct (p x) eqn:Ep; simpl; rewrite IH; [reflexivity|].
  destruct (q x) eqn:Eq; [|reflexivity].
  apply Hqp in Eq. congruence.
Qed.

Lemma within_hour_earlier :
  forall (now1 now2 : instant) (row : Row),
    (now1 <= now2)%Z ->
    within_hour now2 row = true -> within_hour now1 row = true.
Proof.
  unfold within_hour. intros now1 now2 row Hle H.
  apply Z.leb_le. apply Z.leb_le in H. lia.
Qed.

(** X6. Two refreshes in a row, the clock not running backwards between
    them, leave the CSV and the map as a single refresh at the later
    instant does: pruning twice drops nothing that pruning once at the
    later instant would keep, and the map is drawn anew each time. *)
Theorem update_map_twice_is_the_later_refresh :
  forall (clock : nat -> instant) (w : World) (rows : list Row),
    csv_file w = Some rows ->
    (clock (clock_reads w) <= clock (S (clock_reads w)))%Z ->
    bind (update_map clock) (fun _ => update_map clock) w
    = update_map clock (mkWorld (csv_file w) (map_file w) (S (clock_reads w))).
Proof.
  intros clock w rows Hcsv Hclock. unfold bind at 1.
  rewrite (update_map_present clock w Hcsv).
  rewrite (@update_map_present clock
             (mkWorld (csv_file w) (map_file w) (S (clock_reads w))) rows Hcsv).
  erewrite update_map_present by reflexivity.
  cbn [clock_reads]. unfold markers_at.
  rewrite filter_filter_weaker; [reflexivity|].
  intros row. apply within_hour_earlier. exact Hclock.
Qed.

Lemma update_map_twice_is_the_later_refresh_witness :
  let old := mkRow Oboloni obolon (Some 50.5%float) (Some 30.5%float)
                   (seconds 0) in
  let new := mkRow Oboloni raion (Some 50.5%float) (Some 30.5%float)
                   (seconds 3000) in
  let clock := fun n => seconds (3600 * Z.of_nat n) in
  let w := mkWorld (Some [old; new]) None 1 in
  bind (update_map clock) (fun _ => update_map clock) w
  = update_map clock (mkWorld (csv_file w) (map_file w) (S (clock_reads w))).
Proof.
  intros old new clock w.
  apply (@update_map_twice_is_the_later_refresh clock w [old; new]).
  - reflexivity.
  - vm_compute. discriminate.
Defined.

Lemma circle_marks :
  forall (now : instant) (row : Row),
    within_hour now row = true ->
    marks now row (circle row (marker_color (now - timestamp row)%Z)).
Proof.
  intros now row Hin. unfold within_hour in Hin. apply Z.leb_le in Hin.
  destruct (marker_color_tiers (now - timestamp row)%Z) as [Hred [Hyel Hgray]].
  unfold marks, circle. simpl. repeat split; assumption.
Qed.

(** X7. A refresh on an existing CSV writes back some rows and a map
    centred on Kyiv at zoom 10 whose markers answer those rows one for one,
    in order: each marker stands at its row's latitude and longitude, shows
    its row's message, has radius 6 and one colour for line and fill, and
    that colour is red up to 15 minutes of age, yellow above 15 and up to 30
    minutes, gray above 30 minutes; no marked row is older than one hour.
    Whatever map was there before is replaced. *)
Theorem map_marks_the_rows_written_back :
  forall (clock : nat -> instant) (w : World) (rows : list Row),
    csv_file w = Some rows ->
    exists (w' : World) (kept : list Row) (m : Map),
      update_map clock w = Returns (tt, w') /\
      csv_file w' = Some kept /\
      map_file w' = Some m /\
      map_location m = KYIV /\ zoom_start m = ZOOM /\
      Forall2 (marks (clock (clock_reads w))) kept (children m).
Proof.
  intros clock w rows Hcsv.
  do 3 eexists. split; [apply update_map_present; exact Hcsv|].
  cbn [csv_file map_file map_location zoom_start children].
  repeat split. unfold markers_at. clear Hcsv.
  induction rows as [|row rows IH]; simpl; [constructor|].
  destruct (within_hour (clock (clock_reads w)) row) eqn:E; simpl;
    [|exact IH].
  constructor; [apply circle_marks; exact E | exact IH].
Qed.

Lemma map_marks_the_rows_written_back_witness :
  let old := mkRow Oboloni obolon (Some 50.5%float) (Some 30.5%float)
                   (seconds 0) in
  let new := mkRow Oboloni raion (Some 50.5%float) (Some 30.5%float)
                   (seconds 3000) in
  let w := mkWorld (Some [old; new]) None 3700 in
  exists (w' : World) (kept : list Row) (m : Map),
    update_map ticking_clock w = Returns (tt, w') /\
    csv_file w' = Some kept /\
    map_file w' = Some m /\
    map_location m = KYIV /\ zoom_start m = ZOOM /\
    Forall2 (marks (ticking_clock (clock_reads w))) kept (children m).
Proof.
  intros old new w.
  apply (@map_marks_the_rows_written_back ticking_clock w [old; new]).
  reflexivity.
Defined.

(** ** The module-level set-up *)

(** X8. The set-up returns with both files present: a CSV that existed
    keeps its rows and a missing one is created empty, a map that existed
    is kept and a missing one is created without markers.  The clock is
    not read, and running the set-up again changes nothing. *)
Theorem startup_creates_only_what_is_missing :
  forall w : World,
    exists w' : World,
      startup w = Returns (tt, w') /\
      csv_file w' = Some (rows_of w) /\
      map_file w' = Some (match map_file w with
                          | Some m => m
                          | None => mkMap KYIV ZOOM []
                          end) /\
      clock_reads w' = clock_reads w /\
      startup w' = Returns (tt, w').
Proof.
  intros [[rows|] [m|] k]; eexists; (split; [reflexivity|]);
    repeat split; reflexivity.
Qed.

(** ** The handler *)

(** X9. A message without text, with empty text, or with a text in which
    the NER model tags no location leaves everything as it was: no row is
    saved, the CSV is not pruned, the map is not redrawn and the clock is
    not read. *)
Theorem handler_without_locations_changes_nothing :
  forall (nlp : str -> list Span) (morph_parse : str -> list Parse)
         (geocode : str -> Outcome (option Location)) (clock : nat -> instant)
         (event : Event) (w : World),
    (forall text,
        msg_text event = Some text -> text <> [] ->
        Forall (fun ent => is_LOC (ent_type ent) = false) (nlp text)) ->
    telegram_handler nlp morph_parse geocode clock event w = Returns (tt, w).
Proof.
  intros nlp morph_parse geocode clock [[text|] date] w Hnone;
    [|reflexivity].
  destruct text as [|c text]; [reflexivity|].
  assert (Hlocs : extract_locations nlp morph_parse (c :: text) = []).
  { rewrite extract_locations_filter.
    rewrite (proj2 (filter_nil_iff _ _)); [reflexivity|].
    apply Hnone; [reflexivity | discriminate]. }
  rewrite telegram_handler_unfold. cbn [str_truthy negb]. cbv zeta.
  rewrite Hlocs. reflexivity.
Qed.

Lemma handler_without_locations_changes_nothing_witness :
  let stale := mkRow Oboloni obolon (Some 50.5%float) (Some 30.5%float)
                     (seconds 0) in
  let w := mkWorld (Some [stale]) None 2 in
  telegram_handler no_loc_nlp uk_parse fixed_geocode hourly_clock
    (mkEvent (Some Oboloni) 0%Z) w
  = Returns (tt, w).
Proof.
  intros stale w.
  apply (@handler_without_locations_changes_nothing no_loc_nlp uk_parse
           fixed_geocode hourly_clock (mkEvent (Some Oboloni) 0%Z) w).
  intros text _ _. repeat constructor.
Defined.

Lemma guard_fails_not_accepted :
  forall (geocode : str -> Outcome (option Location)) (loc : str),
    (forall lat lon,
        geocode_location geocode loc = Returns (lat, lon) ->
        truthy lat && truthy lon = false) ->
    accepted geocode loc = None.
Proof.
  intros geocode loc H. unfold accepted.
  unfold geocode_location, try_except in H.
  destruct (geocode loc) as [[found|]|e]; try reflexivity.
  rewrite (H _ _ eq_refl). reflexivity.
Qed.

Lemma new_rows_none :
  forall (geocode : str -> Outcome (option Location)) (clock : nat -> instant)
         (text : str) (locs : list str) (k : nat),
    (forall loc, In loc locs -> accepted geocode loc = None) ->
    new_rows geocode clock text k locs = [].
Proof.
  intros geocode clock text locs k. induction locs as [|loc locs IH];
    intros H; simpl; [reflexivity|].
  rewrite (H loc (or_introl eq_refl)). apply IH.
  intros l Hl. apply H. right. exact Hl.
Qed.

(** X10. When the message has locations but the guard [if lat and lon]
    fails for every one of them (no match, an exception in the geocoder, or
    a zero coordinate), the handler does exactly what a map refresh does:
    nothing is saved, and the CSV is still pruned and the map redrawn. *)
Theorem handler_with_nothing_accepted_only_refreshes :
  forall (nlp : str -> list Span) (morph_parse : str -> list Parse)
         (geocode : str -> Outcome (option Location)) (clock : nat -> instant)
         (text : str) (date : instant) (w : World),
    text <> [] ->
    extract_locations nlp morph_parse text <> [] ->
    (forall loc lat lon,
        In loc (extract_locations nlp morph_parse text) ->
        geocode_location geocode loc = Returns (lat, lon) ->
        truthy lat && truthy lon = false) ->
    telegram_handler nlp morph_parse geocode clock (mkEvent (Some text) date) w
    = update_map clock w.
Proof.
  intros nlp morph_parse geocode clock text date w Htext Hlocs Hguard.
  rewrite telegram_handler_unfold, (str_truthy_nonempty Htext).
  cbn [negb]. cbv zeta. unfold bind. rewrite handler_loop_run.
  rewrite new_rows_none.
  - cbn [store_rows].
    destruct (extract_locations nlp morph_parse text); [contradiction|].
    reflexivity.
  - intros loc Hloc. apply guard_fails_not_accepted.
    intros lat lon. apply Hguard. exact Hloc.
Qed.

Lemma handler_with_nothing_accepted_only_refreshes_witness :
  let stale := mkRow Oboloni obolon (Some 50.5%float) (Some 30.5%float)
                     (seconds 0) in
  let w := mkWorld (Some [stale]) None 2 in
  telegram_handler two_loc_nlp uk_parse raising_geocode hourly_clock
    (mkEvent (Some Oboloni) 0%Z) w
  = update_map hourly_clock w.
Proof.
  intros stale w.
  apply (@handler_with_nothing_accepted_only_refreshes two_loc_nlp uk_parse
           raising_geocode hourly_clock Oboloni 0%Z w).
  - discriminate.
  - vm_compute. discriminate.
  - intros loc lat lon _ H. vm_compute in H. inversion H. reflexivity.
Defined.

Lemma new_rows_places :
  forall (geocode : str -> Outcome (option Location)) (clock : nat -> instant)
         (text : str) (locs : list str) (k : nat),
    map place (new_rows geocode clock text k locs)
    = filter (passes_guard geocode) locs.
Proof.
  intros geocode clock text locs. unfold passes_guard.
  induction locs as [|loc locs IH]; intros k; simpl; [reflexivity|].
  destruct (accepted geocode loc); simpl; rewrite IH; reflexivity.
Qed.

Lemma map_file_store_rows :
  forall w new, map_file (store_rows w new) = map_file w.
Proof. intros w [|r new]; reflexivity. Qed.

(** X11. The loop of the handler returns, keeps the rows that were in the
    CSV and appends one row for each location that passes the guard, in
    the order of extraction and without merging repeated places; it reads
    the clock once for each row it appends and leaves the map alone. *)
Theorem handler_loop_appends_in_order :
  forall (geocode : str -> Outcome (option Location)) (clock : nat -> instant)
         (text : str) (locs : list str) (w : World),
    exists (w' : World) (new : list Row),
      handler_loop geocode clock text locs w = Returns (tt, w') /\
      rows_of w' = rows_of w ++ new /\
      map place new = filter (passes_guard geocode) locs /\
      map_file w' = map_file w /\
      clock_reads w' = clock_reads w + length new.
Proof.
  intros geocode clock text locs w.
  do 2 eexists. split; [apply handler_loop_run|].
  split; [apply rows_of_store_rows|].
  split; [apply new_rows_places|].
  split; [apply map_file_store_rows | apply clock_reads_store_rows].
Qed.

(** ** The order of the timestamps *)

Lemma StronglySorted_filter :
  forall (A : Type) (R : A -> A -> Prop) (p : A -> bool) (l : list A),
    StronglySorted R l -> StronglySorted R (filter p l).
Proof.
  intros A R p l H. induction H as [|x l Hl IH Hx]; simpl; [constructor|].
  destruct (p x); [|exact IH].
  constructor; [exact IH|].
  apply Forall_forall. intros y Hy. apply filter_In in Hy.
  rewrite Forall_forall in Hx. apply Hx. tauto.
Qed.

Lemma StronglySorted_app :
  forall (A : Type) (R : A -> A -> Prop) (l1 l2 : list A),
    StronglySorted R l1 -> StronglySorted R l2 ->
    (forall x y, In x l1 -> In y l2 -> R x y) ->
    StronglySorted R (l1 ++ l2).
Proof.
  intros A R l1 l2 H1 H2 Hcross.
  induction H1 as [|x l1 Hl1 IH Hx]; simpl; [exact H2|].
  constructor.
  - apply IH. intros a b Ha Hb. apply Hcross; [right; exact Ha | exact Hb].
  - apply Forall_app. split; [exact Hx|].
    apply Forall_forall. intros y Hy. apply Hcross; [left; reflexivity | exact Hy].
Qed.

(** Every new row is stamped with one of the readings of the run. *)
Lemma new_rows_stamp :
  forall (geocode : str -> Outcome (option Location)) (clock : nat -> instant)
         (text : str) (locs : list str) (k : nat) (r : Row),
    In r (new_rows geocode clock text k locs) ->
    exists i,
      k <= i < k + length (new_rows geocode clock text k locs) /\
      timestamp r = clock i.
Proof.
  intros geocode clock text locs.
  induction locs as [|loc locs IH]; intros k r Hin; simpl in *; [contradiction|].
  destruct (accepted geocode loc).
  - destruct Hin as [Hr|Hin].
    + exists k. subst r. simpl. split; [lia | reflexivity].
    + destruct (IH _ _ Hin) as [i [Hi Ht]]. exists i. simpl. split; [lia | exact Ht].
  - apply IH. exact Hin.
Qed.

Lemma new_rows_sorted :
  forall (geocode : str -> Outcome (option Location)) (clock : nat -> instant)
         (text : str),
    clock_monotone clock ->
    forall (locs : list str) (k : nat),
      StronglySorted (fun r1 r2 => (timestamp r1 <= timestamp r2)%Z)
                     (new_rows geocode clock text k locs).
Proof.
  intros geocode clock text Hmono locs.
  induction locs as [|loc locs IH]; intros k; simpl; [constructor|].
  destruct (accepted geocode loc); [|apply IH].
  constructor; [apply IH|].
  apply Forall_forall. intros r Hr. apply new_rows_stamp in Hr.
  destruct Hr as [i [Hi Ht]]. rewrite Ht. simpl. apply Hmono. lia.
Qed.

Lemma store_rows_ordered :
  forall (geocode : str -> Outcome (option Location)) (clock : nat -> instant)
         (text : str) (locs : list str) (w : World),
    clock_monotone clock ->
    stamps_ordered clock w ->
    stamps_ordered clock
      (store_rows w (new_rows geocode clock text (clock_reads w) locs)).
Proof.
  intros geocode clock text locs w Hmono [Hsorted Hbound].
  unfold stamps_ordered.
  rewrite rows_of_store_rows, clock_reads_store_rows.
  rewrite Forall_forall in Hbound. split.
  - apply StronglySorted_app;
      [exact Hsorted | apply new_rows_sorted; exact Hmono|].
    intros x y Hx Hy. apply new_rows_stamp in Hy.
    destruct Hy as [i [Hi Ht]]. rewrite Ht.
    apply Z.le_trans with (clock (clock_reads w));
      [apply Hbound; exact Hx | apply Hmono; lia].
  - apply Forall_forall. intros r Hr. apply in_app_or in Hr.
    destruct Hr as [Hold|Hnew].
    + apply Z.le_trans with (clock (clock_reads w));
        [apply Hbound; exact Hold | apply Hmono; lia].
    + apply new_rows_stamp in Hnew. destruct Hnew as [i [Hi Ht]].
      rewrite Ht. apply Hmono. lia.
Qed.

Lemma update_map_ordered :
  forall (clock : nat -> instant) (w : World),
    clock_monotone clock ->
    stamps_ordered clock w ->
    exists w',
      update_map clock w = Returns (tt, w') /\ stamps_ordered clock w'.
Proof.
  intros clock w Hmono [Hsorted Hbound].
  destruct (csv_file w) as [rows|] eqn:Hcsv.
  - eexists. split; [apply update_map_present; exact Hcsv|].
    unfold stamps_ordered, rows_of in *. rewrite Hcsv in *.
    cbn [csv_file clock_reads]. split.
    + apply StronglySorted_filter. exact Hsorted.
    + apply Forall_forall. intros r Hr. apply filter_In in Hr.
      rewrite Forall_forall in Hbound.
      apply Z.le_trans with (clock (clock_reads w));
        [apply Hbound; tauto | apply Hmono; lia].
  - exists w. split; [apply update_map_missing; exact Hcsv|].
    split; assumption.
Qed.

(** X13. With a clock that never runs backwards, the order of the
    timestamps is kept: if the rows of the CSV stand in non-decreasing
    order of timestamp and none is stamped later than the next reading of
    the clock, the same holds after any run of the handler and after any
    map refresh. *)
Theorem timestamps_stay_ordered :
  forall (nlp : str -> list Span) (morph_parse : str -> list Parse)
         (geocode : str -> Outcome (option Location)) (clock : nat -> instant)
         (event : Event) (w : World),
    clock_monotone clock ->
    stamps_ordered clock w ->
    (exists w',
        telegram_handler nlp morph_parse geocode clock event w
        = Returns (tt, w') /\
        stamps_ordered clock w') /\
    (exists w',
        update_map clock w = Returns (tt, w') /\ stamps_ordered clock w').
Proof.
  intros nlp morph_parse geocode clock [[text|] date] w Hmono Hord;
    (split; [|apply update_map_ordered; assumption]).
  2: { exists w. split; [reflexivity | exact Hord]. }
  destruct text as [|c text].
  { exists w. split; [reflexivity | exact Hord]. }
  rewrite telegram_handler_unfold. cbn [str_truthy negb]. cbv zeta.
  unfold bind. rewrite handler_loop_run.
  assert (Hord1 := @store_rows_ordered geocode clock (c :: text)
                     (extract_locations nlp morph_parse (c :: text)) w
                     Hmono Hord).
  destruct (extract_locations nlp morph_parse (c :: text)).
  - eexists. split; [reflexivity | exact Hord1].
  - apply update_map_ordered; assumption.
Qed.

Lemma ticking_clock_monotone : clock_monotone ticking_clock.
Proof.
  intros i j Hij. unfold ticking_clock, seconds. lia.
Qed.

Lemma timestamps_stay_ordered_witness :
  let w := mkWorld (Some []) None 5 in
  (exists w',
      telegram_handler two_loc_nlp uk_parse fixed_geocode ticking_clock
        (mkEvent (Some Oboloni) 0%Z) w
      = Returns (tt, w') /\
      stamps_ordered ticking_clock w') /\
  (exists w',
      update_map ticking_clock w = Returns (tt, w') /\
      stamps_ordered ticking_clock w').
Proof.
  intros w.
  apply (@timestamps_stay_ordered two_loc_nlp uk_parse fixed_geocode
           ticking_clock (mkEvent (Some Oboloni) 0%Z) w
           ticking_clock_monotone).
  split; constructor.
Defined.
